(** * EU acceptance map: the data preparation and selection of
      [interactive_map_app.py], embedded and checked against its specification.

    The script reads one CSV file into a pandas frame, relabels the
    [question] column, adds the columns [country_name] and [iso_alpha], and
    on every rerun filters the frame by the selected question and builds a
    sorted, formatted display table.

    Conventions of the embedding.
    - A frame is the list of its rows, in index order; a column is the list
      of its cells.  [df[c]] is [getitem_c], [df[c] = s] is [setitem_c].
    - A cell of the columns [question] and [code] is a string or NaN, as
      [pd.read_csv] leaves it: an empty field, and a field holding one of
      the texts pandas takes for missing ("NA" among them), is NaN.  The
      column [acceptance] holds numbers.
    - float64, its order and Python's [str] on it are an interface
      ([Numeric]).  The records of [pycountry.countries] are a parameter of
      the development ([countries]); [countries.get] is modelled on top of
      it ([countries_get]).
    - Python exceptions are values of [exn]; a computation that may raise
      has type [result A].
    - Frames that the script binds to names live in a heap of objects, so
      that in-place updates and aliasing are visible. *)

From stdpp Require Import gmap strings list sorting pretty.
From Stdlib Require Import ZArith.

(** ** Exceptions *)

(** What [pd.read_csv] can raise on a file that exists. *)
Inductive read_fault :=
  | PermissionError
  | EmptyDataError
  | ParserError
  | UnicodeDecodeError.

Inductive exn :=
  | FileNotFoundError
  | ReadFault (f : read_fault)
  | AttributeError
  | LookupError
  | TypeError.

Inductive result (A : Type) :=
  | Return (a : A)
  | Raise (e : exn).
Arguments Return {A} a.
Arguments Raise {A} e.

(** Sequencing: an exception skips the rest. *)
Global Instance result_bind : MBind result := λ A B k c,
  match c with
  | Return a => k a
  | Raise e => Raise e
  end.
Global Instance result_ret : MRet result := λ A a, Return a.

(** [Series.apply(f)] for an [f] that may raise: cell by cell, in index
    order; the first exception aborts the whole call. *)
Fixpoint apply {A B} (f : A → result B) (s : list A) : result (list B) :=
  match s with
  | [] => Return []
  | x :: s' =>
      y ← f x;
      ys ← apply f s';
      Return (y :: ys)
  end.

(** ** Numbers of the [acceptance] column *)

Class Numeric (num : Type) := {
  (** [x <= y] *)
  num_le : num → num → bool;
  (** [str(x)] *)
  num_str : num → string;
  num_le_total : ∀ x y, num_le x y = true ∨ num_le y x = true;
  num_le_trans : ∀ x y z, num_le x y = true → num_le y z = true → num_le x z = true;
}.

(** ** The country reference table *)

(** A record of [pycountry.countries]. *)
Record CountryEntry := { alpha_2 : string; name : string }.

(** ** Cells and rows *)

(** A cell of an object column: a string, or [None] where pandas has NaN. *)
Abbreviation cell := (option string).

(** One row of a frame.  The columns [country_name] and [iso_alpha] do not
    exist in the frame that [read_csv] returns: there they have type
    [unit]. *)
Record Row (num N I : Type) := mkRow {
  question : cell;
  code : cell;
  acceptance : num;
  country_name : N;
  iso_alpha : I;
}.
Arguments mkRow {num N I}.
Arguments question {num N I}.
Arguments code {num N I}.
Arguments acceptance {num N I}.
Arguments country_name {num N I}.
Arguments iso_alpha {num N I}.

(** The frame after [load_data]. *)
Abbreviation DataFrame num := (list (Row num cell cell)).
(** The frame as parsed from the file. *)
Abbreviation CsvFrame num := (list (Row num unit unit)).

(** One row of the display table; [A] is the type of the cells of the
    column [Acceptance (%)]. *)
Record DisplayRow (A : Type) := mkDisplayRow {
  Country : cell;
  Acceptance_pct : A;
}.
Arguments mkDisplayRow {A}.
Arguments Country {A}.
Arguments Acceptance_pct {A}.

(** ** Storage *)

Inductive file (num : Type) :=
  | Unreadable (f : read_fault)
  | Csv (rows : CsvFrame num).
Arguments Unreadable {num} f.
Arguments Csv {num} rows.

(** The working directory: file name to file. *)
Abbreviation storage num := (gmap string (file num)).

Definition read_csv {num} (path : string) (fs : storage num) : result (CsvFrame num) :=
  match fs !! path with
  | None => Raise FileNotFoundError
  | Some (Unreadable f) => Raise (ReadFault f)
  | Some (Csv rows) => Return rows
  end.

(** ** Column access *)

Definition getitem_question {num N I} (df : list (Row num N I)) : list cell :=
  question <$> df.
Definition getitem_code {num N I} (df : list (Row num N I)) : list cell :=
  code <$> df.

(** [df[c] = s] for a series [s] computed from [df] itself: the indexes
    agree, so the cells are assigned position by position. *)
Definition setitem_question {num N I} (df : list (Row num N I)) (s : list cell)
    : list (Row num N I) :=
  zip_with (λ r q, mkRow q (code r) (acceptance r) (country_name r) (iso_alpha r)) df s.
Definition setitem_country_name {num N I N'} (df : list (Row num N I)) (s : list N')
    : list (Row num N' I) :=
  zip_with (λ r n, mkRow (question r) (code r) (acceptance r) n (iso_alpha r)) df s.
Definition setitem_iso_alpha {num N I I'} (df : list (Row num N I)) (s : list I')
    : list (Row num N I') :=
  zip_with (λ r i, mkRow (question r) (code r) (acceptance r) (country_name r) i) df s.

(** [Series.replace(d)]: a cell equal to a key of [d] becomes the key's
    value, every other cell is kept, NaN included. *)
Definition replace (d : gmap string string) (s : list cell) : list cell :=
  (λ v, match v with
        | Some x => Some (default x (d !! x))
        | None => None
        end) <$> s.

(** [Series.map(d)]: a cell that is a key of [d] becomes the key's value,
    every other cell becomes NaN. *)
Definition map_dict (d : gmap string string) (s : list cell) : list cell :=
  (λ v, match v with
        | Some x => d !! x
        | None => None
        end) <$> s.

(** ** load_data *)

Definition csv_path : string := "EU_Acceptance_QB15_Combined_from_XLSX.csv".

(** The entries of the dict literal [question_mapping]. *)
Definition question_items : list (string * string) :=
  [ ("Question from sheet 'QB15_1'", "Equal rights for gay, lesbian, and bisexual people");
    ("Question from sheet 'QB15_2'", "Acceptance of same-sex relationships");
    ("Question from sheet 'QB15_3'", "Allowance of same-sex marriage throughout Europe");
    ("Question from sheet 'QB15_4'", "Adoption rights for same-sex couples") ].
Definition question_mapping : gmap string string := list_to_map question_items.

(** The fixed source identifiers and the fixed labels. *)
Definition question_ids : list string := question_items.*1.
Definition question_labels : list string := question_items.*2.

(** The entries of the dict literal [code_mapping]. *)
Definition code_items : list (string * string) :=
  [ ("BE", "BEL"); ("BG", "BGR"); ("CZ", "CZE"); ("DK", "DNK"); ("DE", "DEU");
    ("EE", "EST"); ("IE", "IRL"); ("GR", "GRC"); ("ES", "ESP"); ("FR", "FRA");
    ("HR", "HRV"); ("IT", "ITA"); ("CY", "CYP"); ("LV", "LVA"); ("LT", "LTU");
    ("LU", "LUX"); ("HU", "HUN"); ("MT", "MLT"); ("NL", "NLD"); ("AT", "AUT");
    ("PL", "POL"); ("PT", "PRT"); ("RO", "ROU"); ("SI", "SVN"); ("SK", "SVK");
    ("FI", "FIN"); ("SE", "SWE") ].
Definition code_mapping : gmap string string := list_to_map code_items.

(** [o.name]: [None] has no attribute [name]. *)
Definition attr_name (o : option CountryEntry) : result string :=
  match o with
  | Some c => Return (name c)
  | None => Raise AttributeError
  end.

Section Loader.
Context {num : Type}.
(** The records of [pycountry.countries], by their [alpha_2]. *)
Variable countries : string → option CountryEntry.

(** [pycountry.countries.get(alpha_2=code)]: [LookupError] for a value
    that is not a [str]; else the record, or [None] when there is none. *)
Definition countries_get (code : cell) : result (option CountryEntry) :=
  match code with
  | Some s => Return (countries s)
  | None => Raise LookupError
  end.

Definition get_country_name (code : cell) : result cell :=
  match o ← countries_get code; attr_name o with
  | Return n => Return (Some n)
  | Raise AttributeError => Return code
  | Raise e => Raise e
  end.

Definition load_data (fs : storage num) : result (option (DataFrame num)) :=
  match read_csv csv_path fs with
  | Raise FileNotFoundError => Return None
  | Raise e => Raise e
  | Return df =>
      let df := setitem_question df (replace question_mapping (getitem_question df)) in
      names ← apply get_country_name (getitem_code df);
      let df := setitem_country_name df names in
      let df := setitem_iso_alpha df (map_dict code_mapping (getitem_code df)) in
      Return (Some df)
  end.

End Loader.

(** ** Selection and display *)

(** [Series.unique()]: the distinct cells, in order of first appearance;
    NaN counts as one value. *)
Fixpoint unique_from (seen : list cell) (s : list cell) : list cell :=
  match s with
  | [] => []
  | x :: s' =>
      if bool_decide (x ∈ seen) then unique_from seen s'
      else x :: unique_from (x :: seen) s'
  end.
Definition unique (s : list cell) : list cell := unique_from [] s.

(** [st.radio(label, options)]: the option the user picked, Python's
    [None] (here the outer [None]) when there is no option at that
    position. *)
Definition radio (options : list cell) (choice : nat) : option cell :=
  options !! choice.

(** [x == v] for a cell and a scalar: a string equals the same string; NaN
    equals nothing, NaN included; nothing equals Python's [None]. *)
Definition cell_eq (x : cell) (v : option cell) : bool :=
  match x, v with
  | Some a, Some (Some b) => bool_decide (a = b)
  | _, _ => false
  end.

(** [s == v]: the boolean mask. *)
Definition eq_series (s : list cell) (v : option cell) : list bool :=
  (λ x, cell_eq x v) <$> s.

(** [df[mask]]: the rows where the mask is true, as a new frame. *)
Fixpoint getitem_mask {A} (df : list A) (mask : list bool) : list A :=
  match df, mask with
  | r :: df', b :: mask' =>
      if b then r :: getitem_mask df' mask' else getitem_mask df' mask'
  | _, _ => []
  end.

(** [df[['country_name', 'acceptance']]] *)
Definition getitem_country_name_acceptance {num I} (df : list (Row num cell I))
    : list (cell * num) :=
  (λ r, (country_name r, acceptance r)) <$> df.

(** [.rename(columns={'country_name': 'Country', 'acceptance': 'Acceptance (%)'})] *)
Definition rename {num} (t : list (cell * num)) : list (DisplayRow num) :=
  (λ r, mkDisplayRow r.1 r.2) <$> t.

Definition getitem_Acceptance_pct {A} (t : list (DisplayRow A)) : list A :=
  Acceptance_pct <$> t.
Definition setitem_Acceptance_pct {A B} (t : list (DisplayRow A)) (s : list B)
    : list (DisplayRow B) :=
  zip_with (λ r a, mkDisplayRow (Country r) a) t s.

(** [s + '%'] *)
Definition add_str (s : list string) (suffix : string) : list string :=
  (λ x, x +:+ suffix) <$> s.

Section Display.
Context {num : Type} `{!Numeric num}.

(** [.sort_values('Acceptance (%)', ascending=False)]: the rows by
    decreasing key.  Rows with equal keys keep their order here; pandas
    leaves their order to the sorting kind. *)
Fixpoint sort_insert (r : DisplayRow num) (t : list (DisplayRow num))
    : list (DisplayRow num) :=
  match t with
  | [] => [r]
  | r' :: t' =>
      if num_le (Acceptance_pct r') (Acceptance_pct r) then r :: r' :: t'
      else r' :: sort_insert r t'
  end.
Definition sort_values_desc (t : list (DisplayRow num)) : list (DisplayRow num) :=
  foldr sort_insert [] t.

(** [.astype(str)] *)
Definition astype_str (s : list num) : list string := num_str <$> s.

(** What [px.choropleth] reads of the frame: locations, color, hover name. *)
Definition choropleth {N} (df : list (Row num N cell))
    : list (cell * num * N) :=
  (λ r, (iso_alpha r, acceptance r, country_name r)) <$> df.

(** The frame the script calls [df_filtered]. *)
Definition filter_by_question (df : DataFrame num) (selected_question : option cell)
    : DataFrame num :=
  getitem_mask df (eq_series (getitem_question df) selected_question).

(** The frame the script calls [df_display], before its column is rewritten. *)
Definition display_sorted (df_filtered : DataFrame num) : list (DisplayRow num) :=
  sort_values_desc (rename (getitem_country_name_acceptance df_filtered)).

(** [df_display] as handed to [st.dataframe]. *)
Definition display_table (df_filtered : DataFrame num) : list (DisplayRow string) :=
  let df_display := display_sorted df_filtered in
  setitem_Acceptance_pct df_display
    (add_str (astype_str (getitem_Acceptance_pct df_display)) "%").

End Display.

(** ** The object heap and the script *)

Definition loc := positive.

(** The objects the script binds to names. *)
Inductive object (num : Type) :=
  | Frame (df : DataFrame num)
  | Table (t : list (DisplayRow num))
  | TableStr (t : list (DisplayRow string)).
Arguments Frame {num} df.
Arguments Table {num} t.
Arguments TableStr {num} t.

(** The process: its objects, and the value [st.cache_data] keeps for
    [load_data] ([None]: not computed yet).  The cache hands out the very
    object it holds, as the specification has it ("the same object"), so
    every rerun aliases the cached frame: a write through [df] in any run
    would be seen by all later runs. *)
Record world (num : Type) := mkWorld {
  heap : gmap loc (object num);
  cache : option (option loc);
}.
Arguments mkWorld {num}.
Arguments heap {num}.
Arguments cache {num}.

Definition state (num A : Type) : Type := world num → result (A * world num).

Global Instance state_bind {num} : MBind (state num) := λ A B k c w,
  match c w with
  | Return (a, w') => k a w'
  | Raise e => Raise e
  end.
Global Instance state_ret {num} : MRet (state num) := λ A a w, Return (a, w).

(** A new object, at an address not in use. *)
Definition alloc {num} (o : object num) : state num loc := λ w,
  let l := fresh (dom (heap w)) in
  Return (l, mkWorld (<[l := o]> (heap w)) (cache w)).

(** An update in place of the object at [l]. *)
Definition store {num} (l : loc) (o : object num) : state num unit := λ w,
  Return ((), mkWorld (<[l := o]> (heap w)) (cache w)).

Definition read_frame {num} (l : loc) : state num (DataFrame num) := λ w,
  match heap w !! l with
  | Some (Frame df) => Return (df, w)
  | _ => Raise TypeError
  end.
Definition read_table {num} (l : loc) : state num (list (DisplayRow num)) := λ w,
  match heap w !! l with
  | Some (Table t) => Return (t, w)
  | _ => Raise TypeError
  end.
Definition read_table_str {num} (l : loc) : state num (list (DisplayRow string)) := λ w,
  match heap w !! l with
  | Some (TableStr t) => Return (t, w)
  | _ => Raise TypeError
  end.

(** What one run of the script shows. *)
Inductive view (num : Type) :=
  | ErrorNotice
  | Page (question_options : list cell) (selected_question : option cell)
         (fig : list (cell * num * cell))
         (table : list (DisplayRow string)).
Arguments ErrorNotice {num}.
Arguments Page {num} question_options selected_question fig table.

Section Script.
Context {num : Type} `{!Numeric num}.
Variable countries : string → option CountryEntry.

(** [load_data] under [@st.cache_data]: the body runs on the first call
    only; its value, a frame or [None], is kept and returned by every
    later call.  An exception is not kept. *)
Definition load_data_cached (fs : storage num) : state num (option loc) := λ w,
  match cache w with
  | Some v => Return (v, w)
  | None =>
      match load_data countries fs with
      | Raise e => Raise e
      | Return None => Return (None, mkWorld (heap w) (Some None))
      | Return (Some df) =>
          let l := fresh (dom (heap w)) in
          Return (Some l, mkWorld (<[l := Frame df]> (heap w)) (Some (Some l)))
      end
  end.

(** One run of the script, top to bottom, with the user's radio choice. *)
Definition script (fs : storage num) (choice : nat) : state num (view num) :=
  df ← load_data_cached fs;
  match df with
  | None => mret ErrorNotice
  | Some df =>
      rows ← read_frame df;
      let question_options := unique (getitem_question rows) in
      let selected_question := radio question_options choice in
      df_filtered ← alloc (Frame (getitem_mask rows
                       (eq_series (getitem_question rows) selected_question)));
      filtered ← read_frame df_filtered;
      let fig := choropleth filtered in
      df_display ← alloc (Table (sort_values_desc (rename
                       (getitem_country_name_acceptance filtered))));
      t ← read_table df_display;
      store df_display (TableStr (setitem_Acceptance_pct t
                     (add_str (astype_str (getitem_Acceptance_pct t)) "%")));;
      shown ← read_table_str df_display;
      mret (Page question_options selected_question fig shown)
  end.

(** A session: the script reruns once per interaction; each rerun sees the
    storage of its moment and the user's choice. *)
Fixpoint session (inputs : list (storage num * nat)) : state num (list (view num)) :=
  match inputs with
  | [] => mret []
  | (fs, choice) :: inputs' =>
      v ← script fs choice;
      vs ← session inputs';
      mret (v :: vs)
  end.

End Script.

Definition initial_world {num} : world num := mkWorld ∅ None.

(** ** A concrete instance: percentages with one decimal *)

(** The cells of a float64 column that holds percentages written with one
    decimal, 0.0 to 100.0: the number in tenths. *)
Record pct := mkPct {
  tenths : N;
  tenths_le : (tenths <=? 1000)%N = true;
}.
Abbreviation pct_lit t := (mkPct t%N eq_refl).

(** [str] of such a float: 91.0 is "91.0", 84.5 is "84.5". *)
Definition str_pct (x : pct) : string :=
  pretty (tenths x `div` 10)%N +:+ "." +:+ pretty (tenths x `mod` 10)%N.

Global Instance pct_numeric : Numeric pct.
Proof.
  refine {| num_le := λ x y, (tenths x <=? tenths y)%N; num_str := str_pct |}.
  - intros x y. rewrite !N.leb_le. lia.
  - intros x y z. rewrite !N.leb_le. lia.
Defined.

(** A reference table with two records. *)
Definition two_countries (code : string) : option CountryEntry :=
  if bool_decide (code = "BE") then Some {| alpha_2 := "BE"; name := "Belgium" |}
  else if bool_decide (code = "DE") then Some {| alpha_2 := "DE"; name := "Germany" |}
  else None.

Definition csv_row (q c : string) (a : pct) : Row pct unit unit :=
  mkRow (Some q) (Some c) a () ().

Definition sheet1 : string := "Question from sheet 'QB15_1'".
Definition label1 : string := "Equal rights for gay, lesbian, and bisexual people".
Definition label2 : string := "Acceptance of same-sex relationships".

Definition scenario_csv : CsvFrame pct :=
  [ csv_row sheet1 "DE" (pct_lit 845); csv_row sheet1 "BE" (pct_lit 910);
    csv_row sheet1 "XK" (pct_lit 300);
    csv_row "Question from sheet 'QB15_2'" "BE" (pct_lit 880) ].

Definition scenario_storage : storage pct := {[ csv_path := Csv scenario_csv ]}.

(** A source with a row whose [code] field is empty, or holds the text
    NA: [read_csv] leaves NaN in the cell. *)
Definition missing_code_csv : CsvFrame pct :=
  [ csv_row sheet1 "BE" (pct_lit 910);
    mkRow (Some sheet1) None (pct_lit 500) () () ].
Definition missing_code_storage : storage pct := {[ csv_path := Csv missing_code_csv ]}.

(** A source with a row whose [question] field is empty. *)
Definition missing_question_csv : CsvFrame pct :=
  [ csv_row sheet1 "BE" (pct_lit 910);
    mkRow None (Some "DE") (pct_lit 845) () () ].
Definition missing_question_storage : storage pct :=
  {[ csv_path := Csv missing_question_csv ]}.

(** The frame a row-by-row reading of the specification describes:
    section 3's derived fields, computed for each record on its own. *)
Definition resolve_name (countries : string → option CountryEntry) (code : string)
    : string :=
  match countries code with
  | Some c => name c
  | None => code
  end.
Definition relabel (q : string) : string := default q (question_mapping !! q).
Definition normalize_row {num} (countries : string → option CountryEntry)
    (r : Row num unit unit) : Row num cell cell :=
  mkRow (relabel <$> question r) (code r) (acceptance r)
        (resolve_name countries <$> code r) (code r ≫= (code_mapping !!.)).

(** No [code] cell of the source is NaN. *)
Definition codes_present {num N I} (rows : list (Row num N I)) : Prop :=
  Forall (λ r, is_Some (code r)) rows.
Global Instance codes_present_dec {num N I} (rows : list (Row num N I)) :
  Decision (codes_present rows).
Proof. unfold codes_present. apply _. Defined.

(** Rows by decreasing acceptance. *)
Definition desc {num} `{!Numeric num} (r1 r2 : DisplayRow num) : Prop :=
  num_le (Acceptance_pct r2) (Acceptance_pct r1) = true.

(** The display row of section 8: the name and the percentage as text. *)
Definition render {num} `{!Numeric num} (r : DisplayRow num) : DisplayRow string :=
  mkDisplayRow (Country r) (num_str (Acceptance_pct r) +:+ "%").

(** The table [load_data] builds from [scenario_csv]. *)
Definition scenario_table : DataFrame pct :=
  [ mkRow (Some label1) (Some "DE") (pct_lit 845) (Some "Germany") (Some "DEU");
    mkRow (Some label1) (Some "BE") (pct_lit 910) (Some "Belgium") (Some "BEL");
    mkRow (Some label1) (Some "XK") (pct_lit 300) (Some "XK") None;
    mkRow (Some label2) (Some "BE") (pct_lit 880) (Some "Belgium") (Some "BEL") ].

(** The labels of a frame lie in the fixed label set. *)
Definition labels_within_fixed_set {num N I} (df : list (Row num N I)) : Prop :=
  length (unique (getitem_question df)) ≤ 4
  ∧ ∀ q, q ∈ getitem_question df → ∃ label, q = Some label ∧ label ∈ question_labels.

(** A source whose five rows carry identifiers outside the mapping. *)
Definition unmapped_csv : CsvFrame pct :=
  [ csv_row "Question from sheet 'QB15_5'" "BE" (pct_lit 500);
    csv_row "Question from sheet 'QB15_6'" "BE" (pct_lit 510);
    csv_row "Question from sheet 'QB15_7'" "BE" (pct_lit 520);
    csv_row "Question from sheet 'QB15_8'" "BE" (pct_lit 530);
    csv_row "Question from sheet 'QB15_9'" "BE" (pct_lit 540) ].
Definition unmapped_storage : storage pct := {[ csv_path := Csv unmapped_csv ]}.

(** What a rerun shows, as a function of the table's content and the
    user's choice. *)
Definition page_of {num} `{!Numeric num} (df : DataFrame num) (choice : nat) : view num :=
  let question_options := unique (getitem_question df) in
  let selected_question := radio question_options choice in
  let df_filtered := filter_by_question df selected_question in
  Page question_options selected_question (choropleth df_filtered) (display_table df_filtered).

(** The cache holds the table [df], at address [l]. *)
Definition holds_table {num} (w : world num) (l : loc) (df : DataFrame num) : Prop :=
  cache w = Some (Some l) ∧ heap w !! l = Some (Frame df).

(** A process whose cache holds the scenario's table. *)
Definition loaded_world : world pct :=
  mkWorld {[ 1%positive := Frame scenario_table ]} (Some (Some 1%positive)).

(** A working directory whose source file cannot be read. *)
Definition unreadable_storage : storage pct := {[ csv_path := Unreadable PermissionError ]}.

(** A working directory without the source file. *)
Definition absent_storage : storage pct := ∅.

(** A working directory whose source file has a header and no rows. *)
Definition empty_storage : storage pct := {[ csv_path := Csv [] ]}.

(** How many of the options [l] a cell equals: one, when it is a string
    among them; none, when it is NaN. *)
Definition matches (x : cell) (l : list cell) : nat :=
  sum_list_with (λ q, if cell_eq x (Some q) then 1 else 0) l.

(** * Properties *)

(** A decidable closed proposition, settled by evaluation. *)
Ltac by_evaluation := apply (bool_decide_unpack _); vm_compute; exact I.

(** ** The two dict literals *)

Lemma question_ids_NoDup : NoDup question_ids.
Proof. by_evaluation. Qed.

Lemma question_labels_NoDup : NoDup question_labels.
Proof. by_evaluation. Qed.

Lemma code_keys_NoDup : NoDup code_items.*1.
Proof. by_evaluation. Qed.

Lemma question_mapping_Some k v :
  question_mapping !! k = Some v ↔ (k, v) ∈ question_items.
Proof. symmetry. apply elem_of_list_to_map, question_ids_NoDup. Qed.

Lemma question_mapping_None k :
  question_mapping !! k = None ↔ k ∉ question_ids.
Proof. symmetry. apply not_elem_of_list_to_map. Qed.

Lemma code_mapping_Some k v :
  code_mapping !! k = Some v ↔ (k, v) ∈ code_items.
Proof. symmetry. apply elem_of_list_to_map, code_keys_NoDup. Qed.

Lemma code_mapping_None k :
  code_mapping !! k = None ↔ k ∉ code_items.*1.
Proof. symmetry. apply not_elem_of_list_to_map. Qed.

Lemma question_mapping_label k v :
  question_mapping !! k = Some v → v ∈ question_labels.
Proof.
  rewrite question_mapping_Some. intros Hin.
  unfold question_labels. apply list_elem_of_fmap. by exists (k, v).
Qed.

(** ** Column operations keep the rows *)

Section Columns.
Context {num N I : Type}.
Implicit Types df : list (Row num N I).

Lemma setitem_question_map df (f : cell → cell) :
  setitem_question df (f <$> getitem_question df)
  = (λ r, mkRow (f (question r)) (code r) (acceptance r) (country_name r) (iso_alpha r)) <$> df.
Proof.
  unfold setitem_question, getitem_question.
  induction df as [|r df IH]; [done |]. cbn. f_equal. apply IH.
Qed.

Lemma setitem_country_name_map {N'} df (f : cell → N') :
  setitem_country_name df (f <$> getitem_code df)
  = (λ r, mkRow (question r) (code r) (acceptance r) (f (code r)) (iso_alpha r)) <$> df.
Proof.
  unfold setitem_country_name, getitem_code.
  induction df as [|r df IH]; [done |]. cbn. f_equal. apply IH.
Qed.

Lemma setitem_iso_alpha_map {I'} df (f : cell → I') :
  setitem_iso_alpha df (f <$> getitem_code df)
  = (λ r, mkRow (question r) (code r) (acceptance r) (country_name r) (f (code r))) <$> df.
Proof.
  unfold setitem_iso_alpha, getitem_code.
  induction df as [|r df IH]; [done |]. cbn. f_equal. apply IH.
Qed.

End Columns.

(** ** The loader *)

Section LoaderFacts.
Context {num : Type}.
Variable countries : string → option CountryEntry.

Lemma get_country_name_str s :
  get_country_name countries (Some s) = Return (Some (resolve_name countries s)).
Proof.
  unfold get_country_name, resolve_name, countries_get, attr_name. simpl.
  by destruct (countries s).
Qed.

Lemma get_country_name_NaN : get_country_name countries None = Raise LookupError.
Proof. done. Qed.

Lemma apply_get_country_name_present (s : list cell) :
  Forall is_Some s →
  apply (get_country_name countries) s
  = Return ((λ c : cell, resolve_name countries <$> c) <$> s).
Proof.
  induction 1 as [|x s [c ->] _ IH]; [done |].
  simpl. rewrite get_country_name_str. simpl. rewrite IH. done.
Qed.

Lemma apply_get_country_name_missing (s : list cell) :
  ¬ Forall is_Some s →
  apply (get_country_name countries) s = Raise LookupError.
Proof.
  induction s as [|[c|] s IH]; intros Hmissing.
  - destruct Hmissing. constructor.
  - simpl. rewrite get_country_name_str. simpl. rewrite IH; [done |].
    intros Hs. apply Hmissing. by constructor.
  - done.
Qed.

Lemma codes_present_getitem {N I} (rows : list (Row num N I)) :
  codes_present rows ↔ Forall is_Some (getitem_code rows).
Proof. unfold codes_present, getitem_code. by rewrite Forall_fmap. Qed.

(** The column-by-column loader computes the row-by-row frame, or stops
    at the first NaN of the [code] column. *)
Lemma load_data_cases (fs : storage num) :
  load_data countries fs =
    match fs !! csv_path with
    | None => Return None
    | Some (Unreadable f) => Raise (ReadFault f)
    | Some (Csv rows) =>
        if decide (codes_present rows)
        then Return (Some (normalize_row countries <$> rows))
        else Raise LookupError
    end.
Proof.
  unfold load_data, read_csv.
  destruct (fs !! csv_path) as [[f|rows]|]; [done | | done].
  unfold replace. rewrite setitem_question_map.
  set (df1 := _ <$> rows).
  assert (getitem_code df1 = getitem_code rows) as Hcodes.
  { unfold df1, getitem_code. by rewrite <- list_fmap_compose. }
  destruct (decide (codes_present rows)) as [Hpresent|Hmissing].
  - rewrite apply_get_country_name_present
      by (rewrite Hcodes; by apply codes_present_getitem).
    simpl. rewrite setitem_country_name_map.
    unfold map_dict. rewrite setitem_iso_alpha_map.
    unfold df1. rewrite <- !list_fmap_compose. done.
  - rewrite apply_get_country_name_missing; [done |].
    rewrite Hcodes. by rewrite <- codes_present_getitem.
Qed.

Lemma load_data_rows (fs : storage num) rows :
  fs !! csv_path = Some (Csv rows) → codes_present rows →
  load_data countries fs = Return (Some (normalize_row countries <$> rows)).
Proof. intros Hfile Hpresent. rewrite load_data_cases, Hfile. by rewrite decide_True. Qed.

Lemma load_data_missing_code (fs : storage num) rows :
  fs !! csv_path = Some (Csv rows) → ¬ codes_present rows →
  load_data countries fs = Raise LookupError.
Proof. intros Hfile Hmissing. rewrite load_data_cases, Hfile. by rewrite decide_False. Qed.

Lemma load_data_Some_inv (fs : storage num) rows df :
  fs !! csv_path = Some (Csv rows) →
  load_data countries fs = Return (Some df) →
  codes_present rows ∧ df = normalize_row countries <$> rows.
Proof.
  intros Hfile. rewrite load_data_cases, Hfile.
  destruct (decide (codes_present rows)); [| done]. by intros [= <-].
Qed.

(** In a table that [load_data] returned every [code] cell is a string
    and every [country_name] cell is the name resolved from it. *)
Lemma normalize_row_present (rows : CsvFrame num) r :
  codes_present rows → r ∈ normalize_row countries <$> rows →
  ∃ c, code r = Some c ∧ country_name r = Some (resolve_name countries c)
       ∧ iso_alpha r = code_mapping !! c.
Proof.
  intros Hpresent (r0 & -> & Hr0)%list_elem_of_fmap.
  unfold codes_present in Hpresent. rewrite Forall_forall in Hpresent.
  destruct (Hpresent _ Hr0) as [c Hc]. exists c. simpl. by rewrite Hc.
Qed.

End LoaderFacts.

(** Settles the two halves of a statement about [load_data] on a source
    that is present: it returns when no code is missing, and what it
    returns is the row-by-row frame. *)
Ltac loaded Hfile Hpresent :=
  split;
  [ intros Hpresent; eexists; by eapply load_data_rows
  | intros ? [Hpresent ->]%(load_data_Some_inv _ _ _ _ Hfile) ].

(** ** The question selector's options *)

Lemma unique_from_elem seen s x :
  x ∈ unique_from seen s ↔ x ∈ s ∧ x ∉ seen.
Proof.
  revert seen. induction s as [|y s IH]; intros seen; simpl.
  - rewrite elem_of_nil. tauto.
  - case_bool_decide as Hseen.
    + rewrite IH, elem_of_cons. split; [tauto |].
      intros [[->|Hs] Hx]; [done | tauto].
    + rewrite !elem_of_cons, IH, elem_of_cons.
      destruct (decide (x = y)) as [->|Hne]; [tauto |]. tauto.
Qed.

Lemma unique_from_NoDup seen s : NoDup (unique_from seen s).
Proof.
  revert seen. induction s as [|y s IH]; intros seen; simpl; [constructor |].
  case_bool_decide; [apply IH |].
  constructor; [| apply IH].
  rewrite unique_from_elem. intros [_ Hy]. apply Hy. by left.
Qed.

Lemma unique_elem s x : x ∈ unique s ↔ x ∈ s.
Proof.
  unfold unique. rewrite unique_from_elem. split; [by intros [? _] |].
  intros Hx. split; [done | by intros ?%elem_of_nil].
Qed.

Lemma unique_length_bound s (allowed : list cell) :
  (∀ x, x ∈ s → x ∈ allowed) → length (unique s) ≤ length allowed.
Proof.
  intros Hall. apply submseteq_length, NoDup_submseteq.
  - apply unique_from_NoDup.
  - intros x Hx. apply Hall. by apply unique_elem.
Qed.

Section LoaderClaims.
Context {num : Type} `{!Numeric num}.
Variable countries : string → option CountryEntry.
Implicit Types fs : storage num.
Implicit Types rows : CsvFrame num.

(** C1, as amended: when every source row's question identifier is one of
    the four fixed source identifiers, the table [load_data] returns has
    question labels that form a set of size at most 4, each of them one of
    the four fixed labels; [load_data] returns a table whenever no [code]
    cell is missing. *)
Theorem C1_labels_of_mapped_source fs rows :
  fs !! csv_path = Some (Csv rows) →
  Forall (λ r, ∃ id, question r = Some id ∧ id ∈ question_ids) rows →
  (codes_present rows → ∃ df, load_data countries fs = Return (Some df))
  ∧ ∀ df, load_data countries fs = Return (Some df) → labels_within_fixed_set df.
Proof.
  intros Hfile Hids. loaded Hfile Hpresent.
  assert (∀ q, q ∈ getitem_question (normalize_row countries <$> rows)
               → ∃ label, q = Some label ∧ label ∈ question_labels) as Hlabels.
  { intros q. unfold getitem_question. rewrite <- list_fmap_compose.
    intros (r & -> & Hr)%list_elem_of_fmap. simpl.
    rewrite Forall_forall in Hids. destruct (Hids r Hr) as (id & -> & Hid).
    exists (relabel id). split; [done |]. unfold relabel.
    destruct (question_mapping !! id) as [v|] eqn:Hq.
    - simpl. by eapply question_mapping_label.
    - by apply question_mapping_None in Hq. }
  split; [| done].
  change 4 with (length (Some <$> question_labels)).
  apply unique_length_bound.
  intros q (label & -> & Hlabel)%Hlabels. by apply list_elem_of_fmap_2.
Qed.

(** C2: in the table [load_data] returns, row by row against the source, a
    row whose country code is one of the 27 entries of the geocoding table
    has that entry's value as [iso_alpha], every other row has a missing
    [iso_alpha]; the result depends on the code alone, also across two
    loads. *)
Theorem C2_geo_code fs rows fs' rows' :
  fs !! csv_path = Some (Csv rows) →
  fs' !! csv_path = Some (Csv rows') →
  (codes_present rows → codes_present rows' →
     ∃ df df', load_data countries fs = Return (Some df)
               ∧ load_data countries fs' = Return (Some df'))
  ∧ length code_items = 27 ∧ NoDup code_items.*1
  ∧ ∀ df df',
      load_data countries fs = Return (Some df) →
      load_data countries fs' = Return (Some df') →
      length df = length rows
      ∧ (∀ i r, rows !! i = Some r →
           ∃ r', df !! i = Some r' ∧ code r' = code r
             ∧ (∀ c a3, code r = Some c → (c, a3) ∈ code_items → iso_alpha r' = Some a3)
             ∧ (∀ c, code r = Some c → c ∉ code_items.*1 → iso_alpha r' = None))
      ∧ (∀ r, r ∈ df →
           (∀ c a3, code r = Some c → (c, a3) ∈ code_items → iso_alpha r = Some a3)
           ∧ (∀ c, code r = Some c → c ∉ code_items.*1 → iso_alpha r = None))
      ∧ (∀ r r', r ∈ df → r' ∈ df ++ df' → code r = code r' → iso_alpha r = iso_alpha r').
Proof.
  intros Hfile Hfile'. split; [| split; [done | split; [apply code_keys_NoDup |]]].
  { intros Hc Hc'. eexists _, _. split; by eapply load_data_rows. }
  intros df df' [Hc ->]%(load_data_Some_inv _ _ _ _ Hfile)
                [Hc' ->]%(load_data_Some_inv _ _ _ _ Hfile').
  assert (∀ (rs : CsvFrame num) r,
            r ∈ normalize_row countries <$> rs →
            iso_alpha r = code r ≫= (code_mapping !!.)) as Hiso.
  { intros rs r (r0 & -> & _)%list_elem_of_fmap. done. }
  assert (∀ r : Row num cell cell,
            iso_alpha r = code r ≫= (code_mapping !!.) →
            (∀ c a3, code r = Some c → (c, a3) ∈ code_items → iso_alpha r = Some a3)
            ∧ (∀ c, code r = Some c → c ∉ code_items.*1 → iso_alpha r = None)) as Hrow.
  { intros r ->. split.
    - intros c a3 -> Hin. by apply code_mapping_Some.
    - intros c -> Hout. by apply code_mapping_None. }
  split; [by rewrite length_fmap |]. split; [| split].
  - intros i r Hi. exists (normalize_row countries r).
    split; [by rewrite list_lookup_fmap, Hi |]. split; [done |].
    exact (Hrow (normalize_row countries r) eq_refl).
  - intros r Hr. apply Hrow. by eapply Hiso.
  - intros r r' Hr [Hr'|Hr']%elem_of_app Hcode;
      rewrite (Hiso _ _ Hr), (Hiso _ _ Hr'), Hcode; done.
Qed.


(** C6: the table [load_data] returns has as many rows as the source, and
    row by row the source's code and acceptance: no row is dropped, none
    is duplicated; [load_data] returns a table whenever no [code] cell is
    missing. *)
Theorem C6_row_count fs rows :
  fs !! csv_path = Some (Csv rows) →
  (codes_present rows → ∃ df, load_data countries fs = Return (Some df))
  ∧ ∀ df, load_data countries fs = Return (Some df) →
      length df = length rows
      ∧ ∀ i, (λ r, (code r, acceptance r)) <$> df !! i
             = (λ r, (code r, acceptance r)) <$> rows !! i.
Proof.
  intros Hfile. loaded Hfile Hpresent.
  split; [by rewrite length_fmap |].
  intros i. rewrite list_lookup_fmap. by destruct (rows !! i).
Qed.

(** C8: a source row whose question identifier is one of the four fixed
    identifiers gets, in the table [load_data] returns, the label the static
    mapping assigns to it; the mapping gives each identifier one label and
    each label one identifier, and the sheet-1 identifier the label
    "Equal rights for gay, lesbian, and bisexual people". *)
Theorem C8_mapped_label fs rows :
  fs !! csv_path = Some (Csv rows) →
  (codes_present rows → ∃ df, load_data countries fs = Return (Some df))
  ∧ (∀ df, load_data countries fs = Return (Some df) →
       ∀ i r id label, rows !! i = Some r → question r = Some id →
         (id, label) ∈ question_items →
         question <$> df !! i = Some (Some label))
  ∧ length question_items = 4
  ∧ NoDup question_ids ∧ NoDup question_labels
  ∧ ("Question from sheet 'QB15_1'",
     "Equal rights for gay, lesbian, and bisexual people") ∈ question_items.
Proof.
  intros Hfile.
  assert (∀ A B C D : Prop, (A ∧ B) → C → D → (A ∧ B ∧ C ∧ D)) as Hsplit by tauto.
  apply Hsplit; [| done | split; [apply question_ids_NoDup |
                                  split; [apply question_labels_NoDup | by left]]].
  loaded Hfile Hpresent.
  intros i r id label Hi Hq Hin. rewrite list_lookup_fmap, Hi. simpl.
  rewrite Hq. simpl. unfold relabel.
  apply question_mapping_Some in Hin. by rewrite Hin.
Qed.

(** C10: a source row whose question identifier is none of the four fixed
    identifiers keeps that identifier, unchanged, as its label in the table
    [load_data] returns, and the identifier is one of the selector's
    options; the relabelling raises nothing: the load returns whenever no
    [code] cell is missing. *)
Theorem C10_unmapped_passthrough fs rows :
  fs !! csv_path = Some (Csv rows) →
  (codes_present rows → ∃ df, load_data countries fs = Return (Some df))
  ∧ ∀ df, load_data countries fs = Return (Some df) →
      ∀ i r, rows !! i = Some r →
        (∀ id, question r = Some id → id ∉ question_ids) →
        question <$> df !! i = Some (question r)
        ∧ question r ∈ unique (getitem_question df).
Proof.
  intros Hfile. loaded Hfile Hpresent.
  intros i r Hi Hout.
  assert (question <$> (normalize_row countries <$> rows) !! i = Some (question r)) as Hq.
  { rewrite list_lookup_fmap, Hi. simpl. f_equal.
    destruct (question r) as [id|]; [| done]. simpl. unfold relabel.
    specialize (Hout id eq_refl). apply question_mapping_None in Hout.
    by rewrite Hout. }
  split; [done |].
  apply unique_elem. unfold getitem_question.
  apply list_elem_of_lookup. exists i. by rewrite list_lookup_fmap.
Qed.

End LoaderClaims.

(** ** Filtering by the selected question *)

Lemma cell_eq_Some (x : cell) (label : string) :
  cell_eq x (Some (Some label)) = true ↔ x = Some label.
Proof.
  destruct x as [a|]; simpl; [| done].
  rewrite bool_decide_eq_true. split; [by intros -> | by intros [= ->]].
Qed.

Lemma cell_eq_not_string (x : cell) (v : option cell) :
  (∀ label, v ≠ Some (Some label)) → cell_eq x v = false.
Proof.
  intros Hv. destruct x as [a|], v as [[b|]|]; simpl; try done.
  by destruct (Hv b).
Qed.

Section Selection.
Context {num : Type}.
Implicit Types df : DataFrame num.

Lemma getitem_mask_eq_series df (selected : option cell) :
  getitem_mask df (eq_series (getitem_question df) selected)
  = filter (λ r, cell_eq (question r) selected = true) df.
Proof.
  unfold eq_series, getitem_question.
  induction df as [|r df IH]; [done |].
  rewrite filter_cons, !fmap_cons. simpl getitem_mask. rewrite IH.
  destruct (cell_eq (question r) selected) eqn:Heq.
  - by rewrite decide_True.
  - by rewrite decide_False.
Qed.

Lemma filter_by_question_Some df label :
  filter_by_question df (Some (Some label)) = filter (λ r, question r = Some label) df.
Proof.
  unfold filter_by_question. rewrite getitem_mask_eq_series.
  apply list_filter_iff. intros r. apply cell_eq_Some.
Qed.

(** A selection that is no string, NaN or Python's [None], matches no row. *)
Lemma filter_by_question_not_string df (selected : option cell) :
  (∀ label, selected ≠ Some (Some label)) → filter_by_question df selected = [].
Proof.
  intros Hsel. unfold filter_by_question. rewrite getitem_mask_eq_series.
  apply elem_of_nil_inv. intros r. rewrite list_elem_of_filter.
  rewrite (cell_eq_not_string _ _ Hsel). by intros [? _].
Qed.

(** C5: filtering a table by a label returns the rows whose question label
    is that label, all of them and no other, in the order they have in the
    table; when no row has the label the result is the empty frame. *)
Theorem C5_filter_by_question df label :
  filter_by_question df (Some (Some label)) = filter (λ r, question r = Some label) df
  ∧ filter_by_question df (Some (Some label)) `sublist_of` df
  ∧ (∀ r, r ∈ filter_by_question df (Some (Some label))
          ↔ r ∈ df ∧ question r = Some label)
  ∧ ((∀ r, r ∈ df → question r ≠ Some label)
     → filter_by_question df (Some (Some label)) = []).
Proof.
  rewrite filter_by_question_Some.
  split; [done |]. split; [apply sublist_filter |]. split.
  - intros r. rewrite list_elem_of_filter. tauto.
  - intros Hnone. apply elem_of_nil_inv. intros r.
    rewrite list_elem_of_filter. intros [Hq Hr]. by apply (Hnone r).
Qed.

End Selection.

(** ** The display table *)

Section DisplayFacts.
Context {num : Type} `{!Numeric num}.
Implicit Types t : list (DisplayRow num).

Lemma desc_total (r1 r2 : DisplayRow num) : desc r1 r2 ∨ desc r2 r1.
Proof. unfold desc. destruct (num_le_total (Acceptance_pct r1) (Acceptance_pct r2)); auto. Qed.

Lemma desc_trans (r1 r2 r3 : DisplayRow num) : desc r1 r2 → desc r2 r3 → desc r1 r3.
Proof. unfold desc. intros H12 H23. by eapply num_le_trans. Qed.

Lemma sort_insert_Permutation r t : sort_insert r t ≡ₚ r :: t.
Proof.
  induction t as [|r' t IH]; simpl; [done |].
  destruct (num_le _ _); [done |]. rewrite IH. apply Permutation_swap.
Qed.

Lemma sort_insert_sorted r t :
  StronglySorted desc t → StronglySorted desc (sort_insert r t).
Proof.
  induction 1 as [|r' t Hsorted IH Hall]; simpl.
  - repeat constructor.
  - destruct (num_le (Acceptance_pct r') (Acceptance_pct r)) eqn:Hle.
    + constructor; [by constructor |].
      constructor; [done |].
      eapply Forall_impl; [exact Hall |]. intros r'' Hd. by eapply desc_trans.
    + constructor; [done |].
      rewrite sort_insert_Permutation. constructor; [| done].
      destruct (desc_total r' r) as [Hd|Hd]; [done |].
      unfold desc in Hd. congruence.
Qed.

Lemma sort_values_desc_Permutation t : sort_values_desc t ≡ₚ t.
Proof.
  induction t as [|r t IH]; simpl; [done |].
  by rewrite sort_insert_Permutation, IH.
Qed.

Lemma sort_values_desc_sorted t : StronglySorted desc (sort_values_desc t).
Proof.
  induction t as [|r t IH]; simpl; [constructor | by apply sort_insert_sorted].
Qed.

Lemma setitem_Acceptance_pct_render t :
  setitem_Acceptance_pct t (add_str (astype_str (getitem_Acceptance_pct t)) "%")
  = render <$> t.
Proof.
  unfold setitem_Acceptance_pct, add_str, astype_str, getitem_Acceptance_pct.
  induction t as [|r t IH]; [done |]. cbn. f_equal. apply IH.
Qed.

Lemma display_table_render (df_filtered : DataFrame num) :
  display_table df_filtered = render <$> display_sorted df_filtered.
Proof. unfold display_table. apply setitem_Acceptance_pct_render. Qed.

(** C7: the display table of a filtered subset holds the subset's rows,
    each projected to its country name and acceptance, ordered by
    decreasing acceptance, the acceptance shown as the number's string
    followed by a percent sign. *)
Theorem C7_display_table (df_filtered : DataFrame num) :
  ∃ t, t ≡ₚ (λ r, mkDisplayRow (country_name r) (acceptance r)) <$> df_filtered
     ∧ StronglySorted desc t
     ∧ display_table df_filtered
       = (λ r, mkDisplayRow (Country r) (num_str (Acceptance_pct r) +:+ "%")) <$> t.
Proof.
  exists (display_sorted df_filtered). split; [| split].
  - unfold display_sorted. rewrite sort_values_desc_Permutation.
    unfold rename, getitem_country_name_acceptance.
    by rewrite <- list_fmap_compose.
  - apply sort_values_desc_sorted.
  - apply display_table_render.
Qed.

End DisplayFacts.

(** ** Reruns of the script over the shared table *)

Section Reruns.
Context {num : Type} `{!Numeric num}.
Variable countries : string → option CountryEntry.
Implicit Types w : world num.
Implicit Types df : DataFrame num.

Lemma fresh_unused (h : gmap loc (object num)) : h !! fresh (dom h) = None.
Proof. apply not_elem_of_dom, is_fresh. Qed.

Lemma state_bind_Return {A B} (c : state num A) (k : A → state num B) w a w' :
  c w = Return (a, w') → (c ≫= k) w = k a w'.
Proof. unfold mbind, state_bind. by intros ->. Qed.

Lemma read_frame_Some w l df :
  heap w !! l = Some (Frame df) → read_frame l w = Return (df, w).
Proof. unfold read_frame. by intros ->. Qed.

Lemma read_table_Some w l t :
  heap w !! l = Some (Table t) → read_table l w = Return (t, w).
Proof. unfold read_table. by intros ->. Qed.

Lemma read_table_str_Some w l t :
  heap w !! l = Some (TableStr t) → read_table_str l w = Return (t, w).
Proof. unfold read_table_str. by intros ->. Qed.

Lemma load_data_cached_hit fs w v :
  cache w = Some v → load_data_cached countries fs w = Return (v, w).
Proof. unfold load_data_cached. by intros ->. Qed.

(** A rerun over a cached table shows the table's page, allocates, and
    leaves every object that existed before as it was. *)
Lemma script_holds_table fs choice w l df :
  holds_table w l df →
  ∃ w', script countries fs choice w = Return (page_of df choice, w')
      ∧ cache w' = cache w
      ∧ ∀ l0 o, heap w !! l0 = Some o → heap w' !! l0 = Some o.
Proof.
  intros [Hcache Hl].
  set (sel := radio (unique (getitem_question df)) choice).
  set (l1 := fresh (dom (heap w))).
  set (w1 := mkWorld (<[l1 := Frame (filter_by_question df sel)]> (heap w)) (cache w)).
  set (l2 := fresh (dom (heap w1))).
  set (t := display_sorted (filter_by_question df sel)).
  set (w2 := mkWorld (<[l2 := Table t]> (heap w1)) (cache w1)).
  set (w3 := mkWorld (<[l2 := TableStr (display_table (filter_by_question df sel))]>
                        (heap w2)) (cache w2)).
  assert (heap w !! l1 = None) as Hl1 by apply fresh_unused.
  assert (heap w1 !! l2 = None) as Hl2 by apply fresh_unused.
  exists w3. split; [| split; [done |]].
  - unfold script.
    rewrite (state_bind_Return _ _ w (Some l) w) by by apply load_data_cached_hit.
    rewrite (state_bind_Return _ _ w df w) by by apply read_frame_Some.
    rewrite (state_bind_Return _ _ w l1 w1) by done.
    rewrite (state_bind_Return _ _ w1 (filter_by_question df sel) w1)
      by (apply read_frame_Some, lookup_insert_eq).
    rewrite (state_bind_Return _ _ w1 l2 w2) by done.
    rewrite (state_bind_Return _ _ w2 t w2)
      by (apply read_table_Some, lookup_insert_eq).
    rewrite (state_bind_Return _ _ w2 () w3) by done.
    rewrite (state_bind_Return _ _ w3 (display_table (filter_by_question df sel)) w3)
      by (apply read_table_str_Some, lookup_insert_eq).
    done.
  - intros l0 o Hl0. simpl.
    assert (l1 ≠ l0) by congruence.
    assert (l2 ≠ l0).
    { intros ->. simpl in Hl2. rewrite lookup_insert_ne in Hl2 by done. congruence. }
    by rewrite !lookup_insert_ne.
Qed.

Lemma session_holds_table inputs w l df :
  holds_table w l df →
  ∃ w', session countries inputs w
          = Return ((λ i, page_of df i.2) <$> inputs, w')
      ∧ holds_table w' l df
      ∧ ∀ l0 o, heap w !! l0 = Some o → heap w' !! l0 = Some o.
Proof.
  revert w. induction inputs as [|[fs choice] inputs IH]; intros w Hw.
  - exists w. done.
  - destruct (script_holds_table fs choice w l df Hw) as (w1 & Hrun & Hc1 & Hh1).
    assert (holds_table w1 l df) as Hw1.
    { destruct Hw as [Hcache Hl]. split; [congruence | by apply Hh1]. }
    destruct (IH w1 Hw1) as (w2 & Hrest & Hw2 & Hh2).
    exists w2. split; [| split; [done | by intros l0 o ?; apply Hh2, Hh1]].
    simpl. rewrite (state_bind_Return _ _ w _ w1 Hrun).
    by rewrite (state_bind_Return _ _ w1 _ w2 Hrest).
Qed.

(** The first call of [load_data] puts its table into the cache, at a new
    address; the rest of the run is a run over the cached table. *)
Lemma script_first_load fs choice w df :
  cache w = None →
  load_data countries fs = Return (Some df) →
  let l := fresh (dom (heap w)) in
  let w0 := mkWorld (<[l := Frame df]> (heap w)) (Some (Some l)) in
  holds_table w0 l df
  ∧ script countries fs choice w = script countries fs choice w0.
Proof.
  intros Hcache Hload l w0. split.
  - split; [done |]. simpl. apply lookup_insert_eq.
  - unfold script, mbind, state_bind, load_data_cached.
    rewrite Hcache, Hload. done.
Qed.

(** C9: once [load_data] has put its table into the cache, the table keeps
    its content through the run that loaded it and through every later
    rerun, whatever the selections: each run filters it and builds and
    rewrites its display table in objects of their own. *)
Theorem C9_table_never_mutated fs choice inputs w df :
  cache w = None →
  load_data countries fs = Return (Some df) →
  ∃ l w',
    heap w !! l = None
    ∧ session countries ((fs, choice) :: inputs) w
      = Return ((λ i, page_of df i.2) <$> ((fs, choice) :: inputs), w')
    ∧ cache w' = Some (Some l)
    ∧ heap w' !! l = Some (Frame df)
    ∧ ∀ l0 o, heap w !! l0 = Some o → heap w' !! l0 = Some o.
Proof.
  intros Hcache Hload.
  destruct (script_first_load fs choice w df Hcache Hload) as [Hw0 Hsame].
  set (l := fresh (dom (heap w))) in *.
  set (w0 := mkWorld _ _) in *.
  destruct (session_holds_table ((fs, choice) :: inputs) w0 l df Hw0)
    as (w' & Hrun & [Hcache' Hl'] & Hkept).
  assert (heap w !! l = None) as Hnew by apply fresh_unused.
  exists l, w'. split; [done |].
  split; [| split; [done | split; [done |]]].
  - rewrite <- Hrun. simpl. unfold mbind, state_bind. by rewrite Hsame.
  - intros l0 o Hl0. apply Hkept. simpl.
    rewrite lookup_insert_ne; [done | congruence].
Qed.

End Reruns.

(** ** The scenarios of the specification, run *)

Example scenario_load :
  load_data two_countries scenario_storage = Return (Some scenario_table).
Proof. vm_compute. reflexivity. Qed.

Example scenario_absent :
  load_data two_countries absent_storage = Return None
  ∧ ∃ w, script two_countries absent_storage 0 initial_world = Return (ErrorNotice, w).
Proof. split; [reflexivity | eexists; vm_compute; reflexivity]. Qed.

Example scenario_display :
  display_table (filter_by_question scenario_table (Some (Some label1)))
  = [ mkDisplayRow (Some "Belgium") "91.0%"; mkDisplayRow (Some "Germany") "84.5%";
      mkDisplayRow (Some "XK") "30.0%" ].
Proof. vm_compute. reflexivity. Qed.

Example scenario_script :
  ∃ w, script two_countries scenario_storage 0 initial_world =
    Return (Page [Some label1; Some label2] (Some (Some label1))
              [(Some "DEU", pct_lit 845, Some "Germany");
               (Some "BEL", pct_lit 910, Some "Belgium");
               (None, pct_lit 300, Some "XK")]
              [mkDisplayRow (Some "Belgium") "91.0%"; mkDisplayRow (Some "Germany") "84.5%";
               mkDisplayRow (Some "XK") "30.0%"], w).
Proof. eexists. vm_compute. reflexivity. Qed.

(** A table with a missing question cell: NaN is an option of the
    selector, and selecting it shows no row. *)
Example scenario_missing_question :
  ∃ df w,
    load_data two_countries missing_question_storage = Return (Some df)
    ∧ length df = 2
    ∧ script two_countries missing_question_storage 1 initial_world
      = Return (Page [Some label1; None] (Some None) [] [], w).
Proof. eexists _, _. split; [| split]; vm_compute; reflexivity. Qed.

(** ** The claims at concrete inputs *)

Lemma scenario_file : scenario_storage !! csv_path = Some (Csv scenario_csv).
Proof. vm_compute. reflexivity. Qed.

Lemma unmapped_file : unmapped_storage !! csv_path = Some (Csv unmapped_csv).
Proof. vm_compute. reflexivity. Qed.

Lemma missing_code_file : missing_code_storage !! csv_path = Some (Csv missing_code_csv).
Proof. vm_compute. reflexivity. Qed.

Lemma scenario_codes_present : codes_present scenario_csv.
Proof. by_evaluation. Qed.

Lemma unmapped_codes_present : codes_present unmapped_csv.
Proof. by_evaluation. Qed.

(** C1 as the specification states it fails: the table loaded from a
    source with five identifiers outside the mapping has five labels, none
    of them one of the four fixed labels. *)
Lemma C1_unmapped_labels_counterexample :
  unmapped_storage !! csv_path = Some (Csv unmapped_csv)
  ∧ ∃ df, load_data two_countries unmapped_storage = Return (Some df)
      ∧ ¬ labels_within_fixed_set df
      ∧ ¬ length (unique (getitem_question df)) ≤ 4
      ∧ ¬ ∀ q, q ∈ getitem_question df → ∃ label, q = Some label ∧ label ∈ question_labels.
Proof.
  split; [apply unmapped_file |].
  eexists. split; [vm_compute; reflexivity |].
  assert (¬ length (unique (getitem_question (num := pct) (N := cell) (I := cell)
            (normalize_row two_countries <$> unmapped_csv))) ≤ 4) as Hsize.
  { vm_compute. lia. }
  split; [by intros [Hle _] | split; [exact Hsize |]].
  intros Hall.
  assert ("Question from sheet 'QB15_5'" ∉ question_labels) as Hout by by_evaluation.
  destruct (Hall (Some "Question from sheet 'QB15_5'")) as (label & [= <-] & Hlabel);
    [by_evaluation | done].
Qed.

Lemma C1_labels_of_mapped_source_witness :
  scenario_storage !! csv_path = Some (Csv scenario_csv)
  ∧ Forall (λ r, ∃ id, question r = Some id ∧ id ∈ question_ids) scenario_csv
  ∧ (codes_present scenario_csv →
       ∃ df, load_data two_countries scenario_storage = Return (Some df))
  ∧ ∀ df, load_data two_countries scenario_storage = Return (Some df) →
      labels_within_fixed_set df.
Proof.
  assert (Forall (λ r : Row pct unit unit, ∃ id, question r = Some id ∧ id ∈ question_ids)
            scenario_csv) as Hids.
  { repeat (constructor; [eexists; split; [reflexivity | by_evaluation] |]). constructor. }
  split; [apply scenario_file | split; [exact Hids |]].
  exact (C1_labels_of_mapped_source two_countries scenario_storage scenario_csv
           scenario_file Hids).
Defined.

Lemma C2_geo_code_witness :
  scenario_storage !! csv_path = Some (Csv scenario_csv)
  ∧ unmapped_storage !! csv_path = Some (Csv unmapped_csv)
  ∧ (codes_present scenario_csv → codes_present unmapped_csv →
       ∃ df df', load_data two_countries scenario_storage = Return (Some df)
                 ∧ load_data two_countries unmapped_storage = Return (Some df'))
  ∧ length code_items = 27 ∧ NoDup code_items.*1
  ∧ ∀ df df',
      load_data two_countries scenario_storage = Return (Some df) →
      load_data two_countries unmapped_storage = Return (Some df') →
      length df = length scenario_csv
      ∧ (∀ i r, scenario_csv !! i = Some r →
           ∃ r', df !! i = Some r' ∧ code r' = code r
             ∧ (∀ c a3, code r = Some c → (c, a3) ∈ code_items → iso_alpha r' = Some a3)
             ∧ (∀ c, code r = Some c → c ∉ code_items.*1 → iso_alpha r' = None))
      ∧ (∀ r, r ∈ df →
           (∀ c a3, code r = Some c → (c, a3) ∈ code_items → iso_alpha r = Some a3)
           ∧ (∀ c, code r = Some c → c ∉ code_items.*1 → iso_alpha r = None))
      ∧ (∀ r r', r ∈ df → r' ∈ df ++ df' → code r = code r' → iso_alpha r = iso_alpha r').
Proof.
  split; [apply scenario_file | split; [apply unmapped_file |]].
  exact (C2_geo_code two_countries scenario_storage scenario_csv
           unmapped_storage unmapped_csv scenario_file unmapped_file).
Defined.

(** C4 fails on the code: a [code] cell that [read_csv] left NaN (an empty
    field, or the text NA) makes [countries.get] raise [LookupError], which
    [except AttributeError] does not catch; [get_country_name] raises
    instead of falling back to the code, and the whole [load_data] fails.
    On a string the function does what the claim says: the record's name,
    or the code itself when there is no record. *)
Theorem C4_missing_code_fails_load :
  missing_code_storage !! csv_path = Some (Csv missing_code_csv)
  ∧ get_country_name two_countries None = Raise LookupError
  ∧ load_data two_countries missing_code_storage = Raise LookupError
  ∧ get_country_name two_countries (Some "BE") = Return (Some "Belgium")
  ∧ get_country_name two_countries (Some "XK") = Return (Some "XK").
Proof.
  split; [apply missing_code_file |].
  split; [reflexivity |]. split; [| split; reflexivity].
  apply (load_data_missing_code _ _ _ missing_code_file).
  unfold codes_present, missing_code_csv. rewrite !Forall_cons.
  intros (_ & [c Hc] & _). discriminate Hc.
Qed.

Lemma C6_row_count_witness :
  scenario_storage !! csv_path = Some (Csv scenario_csv)
  ∧ (codes_present scenario_csv →
       ∃ df, load_data two_countries scenario_storage = Return (Some df))
  ∧ ∀ df, load_data two_countries scenario_storage = Return (Some df) →
      length df = length scenario_csv
      ∧ ∀ i, (λ r, (code r, acceptance r)) <$> df !! i
             = (λ r, (code r, acceptance r)) <$> scenario_csv !! i.
Proof.
  split; [apply scenario_file |].
  exact (C6_row_count two_countries scenario_storage scenario_csv scenario_file).
Defined.

Lemma C8_mapped_label_witness :
  scenario_storage !! csv_path = Some (Csv scenario_csv)
  ∧ (codes_present scenario_csv →
       ∃ df, load_data two_countries scenario_storage = Return (Some df))
  ∧ (∀ df, load_data two_countries scenario_storage = Return (Some df) →
       ∀ i r id label, scenario_csv !! i = Some r → question r = Some id →
         (id, label) ∈ question_items →
         question <$> df !! i = Some (Some label))
  ∧ length question_items = 4
  ∧ NoDup question_ids ∧ NoDup question_labels
  ∧ ("Question from sheet 'QB15_1'",
     "Equal rights for gay, lesbian, and bisexual people") ∈ question_items.
Proof.
  split; [apply scenario_file |].
  exact (C8_mapped_label two_countries scenario_storage scenario_csv scenario_file).
Defined.

Lemma C10_unmapped_passthrough_witness :
  unmapped_storage !! csv_path = Some (Csv unmapped_csv)
  ∧ (codes_present unmapped_csv →
       ∃ df, load_data two_countries unmapped_storage = Return (Some df))
  ∧ ∀ df, load_data two_countries unmapped_storage = Return (Some df) →
      ∀ i r, unmapped_csv !! i = Some r →
        (∀ id, question r = Some id → id ∉ question_ids) →
        question <$> df !! i = Some (question r)
        ∧ question r ∈ unique (getitem_question df).
Proof.
  split; [apply unmapped_file |].
  exact (C10_unmapped_passthrough two_countries unmapped_storage unmapped_csv unmapped_file).
Defined.

Lemma C9_table_never_mutated_witness :
  cache (initial_world (num := pct)) = None
  ∧ load_data two_countries scenario_storage = Return (Some scenario_table)
  ∧ ∃ l w',
      heap (initial_world (num := pct)) !! l = None
      ∧ session two_countries
          [(scenario_storage, 0); (scenario_storage, 1); (absent_storage, 0)] initial_world
        = Return ((λ i, page_of scenario_table i.2)
                    <$> [(scenario_storage, 0); (scenario_storage, 1); (absent_storage, 0)], w')
      ∧ cache w' = Some (Some l)
      ∧ heap w' !! l = Some (Frame scenario_table)
      ∧ ∀ l0 o, heap (initial_world (num := pct)) !! l0 = Some o → heap w' !! l0 = Some o.
Proof.
  split; [reflexivity | split; [apply scenario_load |]].
  exact (C9_table_never_mutated two_countries scenario_storage 0
           [(scenario_storage, 1); (absent_storage, 0)] initial_world scenario_table
           eq_refl scenario_load).
Defined.

(** * Further properties of the script *)

(** ** The selector's options and the subsets they select *)

Lemma unique_from_filter seen s :
  unique_from seen s = filter (λ x, x ∉ seen) (unique s).
Proof.
  revert seen. induction s as [|x s IH]; intros seen; [done |].
  unfold unique. simpl.
  rewrite (IH [x]), filter_cons, list_filter_filter.
  case_bool_decide as Hseen.
  - rewrite decide_False by tauto. rewrite IH.
    apply list_filter_iff. intros y. rewrite list_elem_of_singleton.
    split; [| tauto]. intros Hy. split; [done | by intros ->].
  - rewrite decide_True by done. f_equal. rewrite IH.
    apply list_filter_iff. intros y. rewrite elem_of_cons, list_elem_of_singleton.
    tauto.
Qed.

Lemma unique_cons x s : unique (x :: s) = x :: filter (λ y, y ≠ x) (unique s).
Proof.
  unfold unique at 1. simpl. f_equal. rewrite unique_from_filter.
  apply list_filter_iff. intros y. by rewrite list_elem_of_singleton.
Qed.

Lemma unique_sublist s : unique s `sublist_of` s.
Proof.
  induction s as [|x s IH]; [done |].
  rewrite unique_cons. apply sublist_skip.
  etrans; [apply sublist_filter | done].
Qed.

Lemma sublist_pair_elem_of (q q' : cell) (l : list cell) :
  [q; q'] `sublist_of` l → q' ∈ l.
Proof.
  intros Hsub. apply (elem_of_sublist [q; q']); [| done]. by right; left.
Qed.

(** An option listed before another one first occurs in the column before
    the other one does. *)
Lemma unique_first_appearance s (q q' : cell) :
  [q; q'] `sublist_of` unique s →
  ∃ s1 s2, s = s1 ++ q :: s2 ∧ q' ∉ s1 ++ [q].
Proof.
  induction s as [|x s IH]; intros Hsub.
  - by apply sublist_nil_r in Hsub.
  - rewrite unique_cons in Hsub.
    apply sublist_cons_r in Hsub as [Hsub|(l' & [= <- <-] & Hsub)].
    + assert (q' ≠ x) as Hq'.
      { apply sublist_pair_elem_of, list_elem_of_filter in Hsub. tauto. }
      destruct IH as (s1 & s2 & -> & Hout).
      { etrans; [exact Hsub | apply sublist_filter]. }
      exists (x :: s1), s2. split; [done |].
      simpl. rewrite not_elem_of_cons. done.
    + exists [], s. split; [done |]. simpl. rewrite list_elem_of_singleton.
      assert (q' ∈ filter (λ y, y ≠ q) (unique s)) as Hq'
        by (apply (elem_of_sublist [q']); [by left | done]).
      apply list_elem_of_filter in Hq'. tauto.
Qed.

Lemma filter_Forall {A} (P : A → Prop) `{!∀ x, Decision (P x)} (l : list A) :
  Forall P l → filter P l = l.
Proof.
  induction 1 as [|x l Hx _ IH]; [done |].
  by rewrite filter_cons, decide_True, IH.
Qed.

Lemma sum_list_with_pointwise {A} (f g : A → nat) (l : list A) :
  (∀ x, f x = g x) → sum_list_with f l = sum_list_with g l.
Proof. intros Hfg. induction l as [|x l IH]; simpl; [done | by rewrite Hfg, IH]. Qed.

Lemma sum_list_with_add {A} (f g : A → nat) (l : list A) :
  sum_list_with (λ x, f x + g x) l = sum_list_with f l + sum_list_with g l.
Proof. induction l as [|x l IH]; simpl; lia. Qed.

Lemma sum_list_with_zero {A} (l : list A) : sum_list_with (λ _, 0) l = 0.
Proof. induction l as [|x l IH]; simpl; [done | by rewrite IH]. Qed.

Lemma cell_eq_str (a : string) (q : cell) :
  cell_eq (Some a) (Some q) = true ↔ q = Some a.
Proof.
  destruct q as [b|]; simpl; [| done].
  rewrite bool_decide_eq_true. split; [by intros -> | by intros [= ->]].
Qed.

Lemma matches_cons x q l :
  matches x (q :: l) = (if cell_eq x (Some q) then 1 else 0) + matches x l.
Proof. done. Qed.

Lemma matches_NaN l : matches None l = 0.
Proof. unfold matches. simpl. apply sum_list_with_zero. Qed.

Lemma matches_not_elem (a : string) l : Some a ∉ l → matches (Some a) l = 0.
Proof.
  induction l as [|q l IH]; [done |].
  intros [Hne Hout]%not_elem_of_cons. rewrite matches_cons, (IH Hout).
  destruct (cell_eq (Some a) (Some q)) eqn:Heq; [| done].
  apply cell_eq_str in Heq. congruence.
Qed.

Lemma matches_elem (a : string) l : NoDup l → Some a ∈ l → matches (Some a) l = 1.
Proof.
  induction 1 as [|q l Hq Hnodup IH]; intros Hin; [by apply elem_of_nil in Hin |].
  rewrite matches_cons. destruct (cell_eq (Some a) (Some q)) eqn:Heq.
  - apply cell_eq_str in Heq. subst q. by rewrite matches_not_elem.
  - apply elem_of_cons in Hin as [<-|Hin]; [| by rewrite IH].
    simpl in Heq. by rewrite bool_decide_true in Heq.
Qed.

Section Options.
Context {num : Type}.
Implicit Types df : DataFrame num.

(** X1: the options of the question selector are the question labels of
    the table, each once, in the order in which they first appear in the
    table: an option listed before another one occurs in the column before
    the first occurrence of the other.  The first option, which the radio
    selects by default, is the first row's label. *)
Theorem X1_question_options df :
  NoDup (unique (getitem_question df))
  ∧ (∀ q, q ∈ unique (getitem_question df) ↔ ∃ r, r ∈ df ∧ question r = q)
  ∧ (∀ q q', [q; q'] `sublist_of` unique (getitem_question df) →
       ∃ s1 s2, getitem_question df = s1 ++ q :: s2 ∧ q' ∉ s1 ++ [q])
  ∧ unique (getitem_question df) `sublist_of` getitem_question df
  ∧ radio (unique (getitem_question df)) 0 = question <$> head df
  ∧ length (unique (getitem_question df)) ≤ length df.
Proof.
  split; [apply unique_from_NoDup |]. split; [| split; [| split; [| split]]].
  - intros q. rewrite unique_elem. unfold getitem_question.
    rewrite list_elem_of_fmap. split; intros (r & ? & ?); by exists r.
  - intros q q'. apply unique_first_appearance.
  - apply unique_sublist.
  - unfold radio. destruct df as [|r df]; [done |].
    unfold getitem_question. rewrite fmap_cons, unique_cons. done.
  - etrans; [apply sublist_length, unique_sublist |].
    unfold getitem_question. by rewrite length_fmap.
Qed.

Lemma filter_by_question_cons r df (selected : option cell) :
  filter_by_question (r :: df) selected
  = (if cell_eq (question r) selected then [r] else []) ++ filter_by_question df selected.
Proof.
  unfold filter_by_question. rewrite !getitem_mask_eq_series, filter_cons.
  by destruct (cell_eq (question r) selected).
Qed.

Lemma filter_counts_sum df (l : list cell) :
  NoDup l → (∀ r, r ∈ df → question r ∈ l) →
  sum_list_with (λ q, length (filter_by_question df (Some q))) l
  = length (filter (λ r, is_Some (question r)) df).
Proof.
  intros Hnodup. induction df as [|r df IH]; intros Hall.
  - apply sum_list_with_zero.
  - assert (question r ∈ l) as Hr by (apply Hall; by left).
    assert (∀ r', r' ∈ df → question r' ∈ l) as Hall' by (intros r' ?; apply Hall; by right).
    rewrite (sum_list_with_pointwise _
               (λ q, (if cell_eq (question r) (Some q) then 1 else 0)
                     + length (filter_by_question df (Some q)))).
    2: { intros q. rewrite filter_by_question_cons, length_app.
         by destruct (cell_eq (question r) (Some q)). }
    rewrite sum_list_with_add, (IH Hall'). fold (matches (question r) l).
    rewrite filter_cons. destruct (question r) as [a|] eqn:Hq.
    + rewrite (matches_elem a l Hnodup Hr). rewrite decide_True by by eexists. done.
    + rewrite matches_NaN. rewrite decide_False by by intros [? ?]. done.
Qed.

(** X2: the selector's options split the rows that have a question: the
    sizes of the subsets selected by the options add up to the number of
    rows whose [question] cell is not missing, which is the size of the
    table when no cell is missing.  A row with a missing [question] cell
    is in no subset, whatever is selected. *)
Theorem X2_options_partition df :
  sum_list_with (λ q, length (filter_by_question df (Some q)))
    (unique (getitem_question df))
  = length (filter (λ r, is_Some (question r)) df)
  ∧ (Forall (λ r, is_Some (question r)) df →
       sum_list_with (λ q, length (filter_by_question df (Some q)))
         (unique (getitem_question df)) = length df)
  ∧ (∀ r selected, r ∈ filter_by_question df selected → is_Some (question r)).
Proof.
  assert (sum_list_with (λ q, length (filter_by_question df (Some q)))
            (unique (getitem_question df))
          = length (filter (λ r, is_Some (question r)) df)) as Hsum.
  { apply filter_counts_sum; [apply unique_from_NoDup |].
    intros r Hr. apply unique_elem. unfold getitem_question.
    by apply list_elem_of_fmap_2. }
  split; [done |]. split.
  - intros Hall. by rewrite Hsum, filter_Forall.
  - intros r selected. unfold filter_by_question.
    rewrite getitem_mask_eq_series, list_elem_of_filter. intros [Heq _].
    destruct (question r); [by eexists | done].
Qed.

(** X3: the radio returns an option exactly when the choice is in range.
    The subset selected by an option that is a string is not empty, and
    each of its rows carries that string as its label.  The subset selected
    by the option NaN, which a table with a missing [question] cell offers,
    is empty, and so is the subset when the radio returns [None]. *)
Theorem X3_selected_subset df choice :
  (choice < length (unique (getitem_question df))
   ↔ is_Some (radio (unique (getitem_question df)) choice))
  ∧ (∀ q, radio (unique (getitem_question df)) choice = Some (Some q) →
       filter_by_question df (Some (Some q)) ≠ []
       ∧ ∀ r, r ∈ filter_by_question df (Some (Some q)) → question r = Some q)
  ∧ (radio (unique (getitem_question df)) choice = Some None →
       filter_by_question df (Some None) = []
       ∧ ∃ r, r ∈ df ∧ question r = None)
  ∧ (radio (unique (getitem_question df)) choice = None →
       filter_by_question df None = []).
Proof.
  unfold radio. split; [| split; [| split]].
  - symmetry. apply lookup_lt_is_Some.
  - intros q Hq. rewrite filter_by_question_Some.
    assert (Some q ∈ getitem_question df) as Hin
      by (apply unique_elem; eapply list_elem_of_lookup_2; exact Hq).
    unfold getitem_question in Hin. apply list_elem_of_fmap in Hin as (r & Hqr & Hr).
    split.
    + intros Hnil.
      assert (r ∈ filter (λ r, question r = Some q) df) as Hin
        by (apply list_elem_of_filter; by split).
      rewrite Hnil in Hin. by apply elem_of_nil in Hin.
    + intros r'. rewrite list_elem_of_filter. tauto.
  - intros Hq. split; [by apply filter_by_question_not_string |].
    assert (None ∈ getitem_question df) as Hin
      by (apply unique_elem; eapply list_elem_of_lookup_2; exact Hq).
    unfold getitem_question in Hin. apply list_elem_of_fmap in Hin as (r & Hqr & Hr).
    by exists r.
  - intros _. by apply filter_by_question_not_string.
Qed.

(** X4: filtering a subset again by the same selection changes nothing, and
    filtering it by another selection leaves no row: the subsets of two
    options share no row. *)
Theorem X4_filter_twice df (selected selected' : option cell) :
  filter_by_question (filter_by_question df selected) selected
  = filter_by_question df selected
  ∧ (selected ≠ selected' →
       filter_by_question (filter_by_question df selected) selected' = []).
Proof.
  unfold filter_by_question. rewrite !getitem_mask_eq_series, !list_filter_filter.
  split.
  - apply list_filter_iff. tauto.
  - intros Hne. apply elem_of_nil_inv. intros r.
    rewrite list_elem_of_filter. intros [[Hq' Hq] _]. apply Hne.
    destruct (question r) as [a|], selected as [[b|]|], selected' as [[b'|]|];
      simpl in *; try done.
    apply bool_decide_eq_true in Hq, Hq'. congruence.
Qed.

End Options.

(** ** Loading and selecting *)

Lemma NoDup_snd_inj {A B} (l : list (A * B)) a b v :
  NoDup l.*2 → (a, v) ∈ l → (b, v) ∈ l → a = b.
Proof.
  induction l as [|[a0 v0] l IH]; simpl; intros Hnodup Ha Hb.
  - by apply elem_of_nil in Ha.
  - apply NoDup_cons in Hnodup as [Hv0 Hnodup].
    apply elem_of_cons in Ha as [Ha|Ha]; apply elem_of_cons in Hb as [Hb|Hb].
    + congruence.
    + injection Ha as -> ->. destruct Hv0. apply list_elem_of_fmap. by exists (b, v0).
    + injection Hb as -> ->. destruct Hv0. apply list_elem_of_fmap. by exists (a, v0).
    + by apply IH.
Qed.

Lemma question_labels_not_ids label : label ∈ question_labels → label ∉ question_ids.
Proof.
  revert label. apply Forall_forall. by_evaluation.
Qed.

Lemma code_values_NoDup : NoDup code_items.*2.
Proof. by_evaluation. Qed.

Lemma code_items_lengths :
  Forall (λ kv, String.length kv.1 = 2 ∧ String.length kv.2 = 3) code_items.
Proof. by_evaluation. Qed.

Lemma relabel_idempotent q : relabel (relabel q) = relabel q.
Proof.
  unfold relabel. destruct (question_mapping !! q) as [v|] eqn:Hq; simpl; [| by rewrite Hq].
  apply question_mapping_label, question_labels_not_ids, question_mapping_None in Hq.
  by rewrite Hq.
Qed.

Section LoadAndSelect.
Context {num : Type} `{!Numeric num}.
Variable countries : string → option CountryEntry.
Implicit Types fs : storage num.
Implicit Types rows : CsvFrame num.



(** X6: relabelling is idempotent: a source whose [question] column has
    already been relabelled loads to the same table as the source itself,
    because no label is itself a source identifier. *)
Theorem X6_relabel_idempotent fs rows :
  fs !! csv_path = Some (Csv rows) →
  (codes_present rows → ∃ df, load_data countries fs = Return (Some df))
  ∧ ∀ df, load_data countries fs = Return (Some df) →
      load_data countries
        (<[csv_path := Csv (setitem_question rows
                              (replace question_mapping (getitem_question rows)))]> fs)
      = Return (Some df).
Proof.
  intros Hfile. loaded Hfile Hpresent.
  unfold replace. rewrite setitem_question_map.
  rewrite (load_data_rows _ _ _ (lookup_insert_eq _ _ _)).
  - do 2 f_equal. rewrite <- list_fmap_compose.
    apply list_fmap_ext. intros _ r _. unfold normalize_row. simpl. f_equal.
    destruct (question r) as [q|]; [| done]. simpl. fold (relabel q).
    by rewrite relabel_idempotent.
  - unfold codes_present in *. by rewrite Forall_fmap.
Qed.

(** X7: two rows of a loaded table are placed at the same map location
    only if they have the same country code; a row that is placed has a
    two-letter code and a three-letter location. *)
Theorem X7_locations_distinct fs rows :
  fs !! csv_path = Some (Csv rows) →
  (codes_present rows → ∃ df, load_data countries fs = Return (Some df))
  ∧ ∀ df, load_data countries fs = Return (Some df) →
      ∀ r a3, r ∈ df → iso_alpha r = Some a3 →
        (∃ c, code r = Some c ∧ String.length c = 2) ∧ String.length a3 = 3
        ∧ ∀ r', r' ∈ df → iso_alpha r' = Some a3 → code r' = code r.
Proof.
  intros Hfile. loaded Hfile Hpresent.
  intros r a3 Hr Hiso.
  destruct (normalize_row_present countries rows r Hpresent Hr) as (c & Hc & _ & Hisoc).
  rewrite Hisoc in Hiso. apply code_mapping_Some in Hiso.
  pose proof code_items_lengths as Hlen. rewrite Forall_forall in Hlen.
  destruct (Hlen _ Hiso) as [H2 H3].
  split; [by exists c | split; [done |]].
  intros r' Hr' Hiso'.
  destruct (normalize_row_present countries rows r' Hpresent Hr') as (c' & Hc' & _ & Hisoc').
  rewrite Hisoc' in Hiso'. apply code_mapping_Some in Hiso'.
  rewrite Hc, Hc'. f_equal.
  by apply (NoDup_snd_inj code_items _ _ a3 code_values_NoDup).
Qed.

(** X8: a source file that is present and has no rows is not the missing
    file: [load_data] returns the empty table, and the script shows a page
    with no option, no selection, an empty map and an empty table. *)
Theorem X8_empty_source fs choice (w : world num) :
  fs !! csv_path = Some (Csv []) →
  cache w = None →
  load_data countries fs = Return (Some [])
  ∧ ∃ w', script countries fs choice w = Return (Page [] None [] [], w').
Proof.
  intros Hfile Hcache.
  assert (load_data countries fs = Return (Some [])) as Hload.
  { rewrite (load_data_rows _ _ _ Hfile); [done | constructor]. }
  split; [done |].
  destruct (script_first_load countries fs choice w [] Hcache Hload) as [Hw0 ->].
  destruct (script_holds_table countries fs choice _ _ _ Hw0) as (w' & Hrun & _).
  exists w'. rewrite Hrun. by destruct choice.
Qed.

(** X9: storage is read once.  Once the cache holds a table, the pages of
    a session depend on the user's choices only: two sessions with the same
    choices show the same pages whatever the file has become in between,
    absent and unreadable included, and neither raises. *)
Theorem X9_storage_read_once inputs inputs' (w : world num) l df :
  holds_table w l df →
  inputs.*2 = inputs'.*2 →
  ∃ views w1 w2,
    session countries inputs w = Return (views, w1)
    ∧ session countries inputs' w = Return (views, w2)
    ∧ length views = length inputs.
Proof.
  intros Hw Hchoices.
  destruct (session_holds_table countries inputs w l df Hw) as (w1 & Hrun1 & _).
  destruct (session_holds_table countries inputs' w l df Hw) as (w2 & Hrun2 & _).
  exists (page_of df <$> inputs.*2), w1, w2.
  split; [| split].
  - rewrite Hrun1. by rewrite <- list_fmap_compose.
  - rewrite Hrun2, Hchoices. by rewrite <- list_fmap_compose.
  - by rewrite !length_fmap.
Qed.

End LoadAndSelect.

(** ** The two views of a subset *)

Section Views.
Context {num : Type} `{!Numeric num}.
Implicit Types df_filtered : DataFrame num.

Lemma display_sorted_Permutation df_filtered :
  display_sorted df_filtered
  ≡ₚ (λ r, mkDisplayRow (country_name r) (acceptance r)) <$> df_filtered.
Proof.
  unfold display_sorted. rewrite sort_values_desc_Permutation.
  unfold rename, getitem_country_name_acceptance. by rewrite <- list_fmap_compose.
Qed.

(** X10: the display table has one row for each row of the subset and
    lists the countries that the map carries as hover names, those the map
    cannot place included; its first row is a row of the subset with the
    highest acceptance. *)
Theorem X10_display_rows df_filtered :
  length (display_table df_filtered) = length df_filtered
  ∧ Country <$> display_table df_filtered ≡ₚ (λ e, e.2) <$> choropleth df_filtered
  ∧ ∀ top rest, display_table df_filtered = top :: rest →
      ∃ r, r ∈ df_filtered
        ∧ top = mkDisplayRow (country_name r) (num_str (acceptance r) +:+ "%")
        ∧ ∀ r', r' ∈ df_filtered → num_le (acceptance r') (acceptance r) = true.
Proof.
  rewrite display_table_render. split; [| split].
  - by rewrite length_fmap, display_sorted_Permutation, length_fmap.
  - rewrite <- list_fmap_compose, display_sorted_Permutation.
    unfold choropleth. by rewrite <- !list_fmap_compose.
  - intros top rest Htop.
    pose proof (sort_values_desc_sorted
                  (rename (getitem_country_name_acceptance df_filtered))) as Hsorted.
    pose proof (display_sorted_Permutation df_filtered) as Hperm.
    fold (display_sorted df_filtered) in Hsorted.
    destruct (display_sorted df_filtered) as [|t0 t]; [done |].
    injection Htop as <- <-.
    assert (t0 ∈ (λ r, mkDisplayRow (country_name r) (acceptance r)) <$> df_filtered)
      as (r & -> & Hr)%list_elem_of_fmap by (rewrite <- Hperm; by left).
    exists r. split; [done | split; [done |]].
    intros r' Hr'.
    assert (mkDisplayRow (country_name r') (acceptance r') ∈
              mkDisplayRow (country_name r) (acceptance r) :: t) as Hin.
    { rewrite Hperm. by apply (list_elem_of_fmap_2
        (λ r, mkDisplayRow (country_name r) (acceptance r))). }
    apply StronglySorted_inv in Hsorted as [_ Hall].
    apply elem_of_cons in Hin as [Heq|Hin].
    + injection Heq as _ ->. by destruct (num_le_total (acceptance r) (acceptance r)).
    + rewrite Forall_forall in Hall. apply (Hall _ Hin).
Qed.

End Views.

(** ** The further properties at concrete inputs *)

Lemma loaded_world_holds : holds_table loaded_world 1%positive scenario_table.
Proof. split; reflexivity. Qed.


Lemma X6_relabel_idempotent_witness :
  scenario_storage !! csv_path = Some (Csv scenario_csv)
  ∧ (codes_present scenario_csv →
       ∃ df, load_data two_countries scenario_storage = Return (Some df))
  ∧ ∀ df, load_data two_countries scenario_storage = Return (Some df) →
      load_data two_countries
        (<[csv_path := Csv (setitem_question scenario_csv
                              (replace question_mapping (getitem_question scenario_csv)))]>
           scenario_storage)
      = Return (Some df).
Proof.
  split; [apply scenario_file |].
  exact (X6_relabel_idempotent two_countries scenario_storage scenario_csv scenario_file).
Defined.

Lemma X7_locations_distinct_witness :
  scenario_storage !! csv_path = Some (Csv scenario_csv)
  ∧ (codes_present scenario_csv →
       ∃ df, load_data two_countries scenario_storage = Return (Some df))
  ∧ ∀ df, load_data two_countries scenario_storage = Return (Some df) →
      ∀ r a3, r ∈ df → iso_alpha r = Some a3 →
        (∃ c, code r = Some c ∧ String.length c = 2) ∧ String.length a3 = 3
        ∧ ∀ r', r' ∈ df → iso_alpha r' = Some a3 → code r' = code r.
Proof.
  split; [apply scenario_file |].
  exact (X7_locations_distinct two_countries scenario_storage scenario_csv scenario_file).
Defined.

Lemma X8_empty_source_witness :
  empty_storage !! csv_path = Some (Csv [])
  ∧ cache (initial_world (num := pct)) = None
  ∧ load_data two_countries empty_storage = Return (Some [])
  ∧ ∃ w', script two_countries empty_storage 0 initial_world
          = Return (Page [] None [] [], w').
Proof.
  assert (empty_storage !! csv_path = Some (Csv [])) as Hfile by (vm_compute; reflexivity).
  split; [exact Hfile | split; [reflexivity |]].
  exact (X8_empty_source two_countries empty_storage 0 initial_world Hfile eq_refl).
Defined.

Lemma X9_storage_read_once_witness :
  holds_table loaded_world 1%positive scenario_table
  ∧ [(scenario_storage, 0); (scenario_storage, 1)].*2
    = [(absent_storage, 0); (unreadable_storage, 1)].*2
  ∧ ∃ views w1 w2,
      session two_countries [(scenario_storage, 0); (scenario_storage, 1)] loaded_world
        = Return (views, w1)
      ∧ session two_countries
          [(absent_storage, 0); (unreadable_storage, 1)] loaded_world
        = Return (views, w2)
      ∧ length views = length [(scenario_storage, 0); (scenario_storage, 1)].
Proof.
  split; [apply loaded_world_holds | split; [reflexivity |]].
  exact (X9_storage_read_once two_countries
           [(scenario_storage, 0); (scenario_storage, 1)]
           [(absent_storage, 0); (unreadable_storage, 1)]
           loaded_world 1%positive scenario_table loaded_world_holds eq_refl).
Defined.
